(** * Fault report pipeline ([main.py]): a shallow embedding and its properties

    The program reads a fault log into a pandas frame, cleans it, groups it,
    ranks the groups per machine and writes a workbook.  The frame is modelled
    as a list of rows, every pandas call as a function on such lists, and the
    workbook writer as a state threaded through the calls. *)

From Stdlib Require Import Ascii String ZArith NArith Bool List Lia.
From Stdlib Require Import Permutation Sorted.
Import ListNotations.

Set Implicit Arguments.

(** ** Python strings

    A Python [str] is a sequence of Unicode code points; comparison, slicing
    and [len] all work on code points. *)

Definition pystr := list N.

(** An ASCII literal of the source as a [pystr]. *)
Definition py (s : string) : pystr := map N_of_ascii (list_ascii_of_string s).

(** Lexicographic comparison of two sequences, a proper prefix being
    smaller: Python's ordering of [str] (on code points) and of tuples. *)
Fixpoint lex_compare (A : Type) (cmp : A -> A -> comparison) (a b : list A) : comparison :=
  match a, b with
  | [], [] => Eq
  | [], _ :: _ => Lt
  | _ :: _, [] => Gt
  | x :: a', y :: b' =>
      match cmp x y with
      | Eq => lex_compare cmp a' b'
      | c => c
      end
  end.

Definition pystr_compare (a b : pystr) : comparison := lex_compare N.compare a b.

Definition is_Eq (c : comparison) : bool :=
  match c with Eq => true | _ => false end.

Definition pystr_eqb (a b : pystr) : bool := is_Eq (pystr_compare a b).

(** ** [sanitize_sheet_name] (lines 13-23) *)

(** The character class of the regular expression [[\\/*?[\]:]]: backslash,
    slash, asterisk, question mark, both square brackets and colon. *)
Definition invalid_chars : list N := [92; 47; 42; 63; 91; 93; 58]%N.

Definition is_invalid_char (c : N) : bool := existsb (N.eqb c) invalid_chars.

(** [re.sub(pattern, '', name)] for a pattern that is one character class. *)
Definition re_sub_invalid (name : pystr) : pystr :=
  filter (fun c => negb (is_invalid_char c)) name.

(** The code points [str.strip()] removes (CPython's [Py_UNICODE_ISSPACE]). *)
Definition isspace (c : N) : bool :=
  ((9 <=? c) && (c <=? 13) || (28 <=? c) && (c <=? 32) || (c =? 133) || (c =? 160)
   || (c =? 5760) || (8192 <=? c) && (c <=? 8202) || (c =? 8232) || (c =? 8233)
   || (c =? 8239) || (c =? 8287) || (c =? 12288))%N.

Fixpoint lstrip (s : pystr) : pystr :=
  match s with
  | [] => []
  | c :: s' => if isspace c then lstrip s' else s
  end.

Definition rstrip (s : pystr) : pystr := rev (lstrip (rev s)).

Definition strip (s : pystr) : pystr := rstrip (lstrip s).

Definition sanitize_sheet_name (name : pystr) : pystr :=
  let sanitized := strip (re_sub_invalid name) in
  firstn 25 sanitized.

(** ** The frame read from [faults.csv] (line 68)

    A frame is a list of rows.  The four text columns hold cells of type [T]
    and the two counters cells of type [V]; the cleaning steps change both. *)

Record Row (T V : Type) : Type := mkRow {
  D_MachineName : T;
  D_StateDesc : T;
  D_MsgDesc : T;
  D_MsgCode : T;
  T_TotalDuration : V;
  T_TotalOccur : V
}.

(** A cell of a text column: [None] is pandas' missing value [NaN]; [Some s]
    is a present value, [s] being the text [str()] gives it. *)
Definition text_cell := option pystr.

(** A cell of a counter column as [read_csv] hands it over: a value
    [pd.to_numeric] accepts, or one it cannot coerce (a word such as [bad], or
    an empty field), kept with its text.  Numbers are integers here, which is
    exact for the integral counters of a fault log. *)
Inductive num_cell : Type :=
| Numeric (z : Z)
| NonNumeric (raw : pystr).

Definition RawRecord := Row text_cell num_cell.

(** A cleaned record: text columns are strings; a counter is [Some z], or
    [None] for [NaN] (which [dropna] has removed). *)
Definition FaultRecord := Row pystr (option Z).

(** [pd.to_numeric(col, errors='coerce')], cell by cell (lines 71-72). *)
Definition to_numeric (c : num_cell) : option Z :=
  match c with
  | Numeric z => Some z
  | NonNumeric _ => None
  end.

Definition coerce_counters (r : RawRecord) : Row text_cell (option Z) :=
  mkRow (D_MachineName r) (D_StateDesc r) (D_MsgDesc r) (D_MsgCode r)
        (to_numeric (T_TotalDuration r)) (to_numeric (T_TotalOccur r)).

Definition notna (A : Type) (c : option A) : bool :=
  match c with Some _ => true | None => false end.

(** [df.dropna(subset=['T_TotalDuration', 'T_TotalOccur'])] (line 75). *)
Definition dropna (T V : Type) (df : list (Row T (option V))) : list (Row T (option V)) :=
  filter (fun r => notna (T_TotalDuration r) && notna (T_TotalOccur r)) df.

(** [Series.astype(str)]: every cell becomes a string, [NaN] the string
    [nan]; nothing is missing afterwards. *)
Definition astype_str (c : text_cell) : text_cell :=
  match c with
  | Some s => Some s
  | None => Some (py "nan")
  end.

(** [Series.fillna(value)]: only a missing cell takes the value. *)
Definition fillna (value : pystr) (c : text_cell) : pystr :=
  match c with
  | Some s => s
  | None => value
  end.

(** Lines 78-81, one row at a time. *)
Definition stringify (r : Row text_cell (option Z)) : FaultRecord :=
  mkRow (fillna (py "Unknown") (astype_str (D_MachineName r)))
        (fillna (py "Unknown") (astype_str (D_StateDesc r)))
        (fillna (py "Unknown") (astype_str (D_MsgDesc r)))
        (fillna (py "Unknown") (astype_str (D_MsgCode r)))
        (T_TotalDuration r) (T_TotalOccur r).

(** The frame [df] as lines 84 onwards see it. *)
Definition df (raw : list RawRecord) : list FaultRecord :=
  map stringify (dropna (map coerce_counters raw)).

(** The column added on line 84; [df] is not changed afterwards, so the
    column is a function of the row. *)
Definition Fault_Description (r : FaultRecord) : pystr :=
  D_MsgDesc r ++ py " (" ++ D_MsgCode r ++ py ")".

(** ** Sorting and grouping *)

Section Sorting.
Variable A : Type.
Variable before : A -> A -> bool.

(** Insertion sort; [before x y] says that [x] may stand in front of [y]. *)
Fixpoint insert_sorted (x : A) (l : list A) : list A :=
  match l with
  | [] => [x]
  | y :: l' => if before x y then x :: l else y :: insert_sorted x l'
  end.

Fixpoint insertion_sort (l : list A) : list A :=
  match l with
  | [] => []
  | x :: l' => insert_sorted x (insertion_sort l')
  end.

End Sorting.

Section GroupBy.
Variables R K V : Type.
Variable key : R -> K.
Variable cmp : K -> K -> comparison.
Variable agg : list R -> V.

Definition same_key (k : K) (r : R) : bool := is_Eq (cmp (key r) k).

(** [Series.unique()]: the distinct values in order of first appearance. *)
Fixpoint unique (l : list K) : list K :=
  match l with
  | [] => []
  | k :: l' => k :: filter (fun k' => negb (is_Eq (cmp k' k))) (unique l')
  end.

Definition not_after (a b : K) : bool :=
  match cmp a b with Gt => false | _ => true end.

(** The group keys of [frame.groupby(cols)], whose default is [sort=True]:
    the distinct keys in ascending order. *)
Definition group_keys (frame : list R) : list K :=
  insertion_sort not_after (unique (map key frame)).

(** [frame.groupby(cols).<agg>().reset_index()]: one row per group key, in
    the order of [group_keys], holding the aggregate of the group's rows. *)
Definition groupby (frame : list R) : list (K * V) :=
  map (fun k => (k, agg (filter (same_key k) frame))) (group_keys frame).

End GroupBy.

(** pandas' [sum]: addition over the cells present ([NaN] is skipped). *)
Fixpoint nansum (l : list (option Z)) : Z :=
  match l with
  | [] => 0
  | Some z :: l' => z + nansum l'
  | None :: l' => nansum l'
  end.

Definition sum_Z (l : list Z) : Z := fold_right Z.add 0%Z l.

(** ** Aggregation (lines 86-101) *)

(** The five grouping columns, in the order the source lists them. *)
Record AggregateKey : Type := mkKey {
  k_machine : pystr;
  k_state : pystr;
  k_code : pystr;
  k_desc : pystr;
  k_fault : pystr
}.

Definition key_of (r : FaultRecord) : AggregateKey :=
  mkKey (D_MachineName r) (D_StateDesc r) (D_MsgCode r) (D_MsgDesc r)
        (Fault_Description r).

Definition key_columns (k : AggregateKey) : list pystr :=
  [k_machine k; k_state k; k_code k; k_desc k; k_fault k].

(** Group keys are tuples of the five columns and compare as tuples. *)
Definition key_compare (a b : AggregateKey) : comparison :=
  lex_compare pystr_compare (key_columns a) (key_columns b).

(** A row of an aggregated frame: the key columns and the summed metric. *)
Definition AggregateRow := (AggregateKey * Z)%type.

Definition aggregated_df_total_duration (df : list FaultRecord) : list AggregateRow :=
  groupby key_of key_compare (fun g => nansum (map (@T_TotalDuration _ _) g)) df.

Definition aggregated_df_total_occur (df : list FaultRecord) : list AggregateRow :=
  groupby key_of key_compare (fun g => nansum (map (@T_TotalOccur _ _) g)) df.

(** Line 96: [df.groupby('D_MachineName').size()], the number of rows of
    [df] in each machine's group. *)
Definition unique_faults_per_station (df : list FaultRecord) : list (pystr * Z) :=
  groupby (@D_MachineName _ _) pystr_compare (fun g => Z.of_nat (length g)) df.

(** Line 100: the aggregated durations summed per machine. *)
Definition total_duration_per_station (df : list FaultRecord) : list (pystr * Z) :=
  groupby (fun a : AggregateRow => k_machine (fst a)) pystr_compare
          (fun g => sum_Z (map snd g)) (aggregated_df_total_duration df).

(** ** Ranking (lines 97, 101, 114-120) *)

(** [frame.sort_values(by=col, ascending=False)], [by] reading the column. *)
Definition sorter : Type := forall A : Type, (A -> Z) -> list A -> list A.

(** What [sort_values] promises with its default [kind='quicksort']: the rows
    rearranged so that the column descends.  The order of rows with equal
    values is left open by that algorithm, and so it is here. *)
Definition sort_values_spec (sort_values : sorter) : Prop :=
  forall (A : Type) (by_col : A -> Z) (frame : list A),
    Permutation (sort_values A by_col frame) frame /\
    StronglySorted (fun a b => (by_col b <= by_col a)%Z) (sort_values A by_col frame).

(** One sorter that meets the promise, to run the pipeline with: an
    insertion sort that puts a row in front of the rows it is not smaller
    than. *)
Definition stable_sort_values : sorter :=
  fun A by_col frame => insertion_sort (fun x y => (by_col y <=? by_col x)%Z) frame.

(** The mask [frame['D_MachineName'] == machine] on an aggregated frame. *)
Definition of_machine (machine : pystr) (a : AggregateRow) : bool :=
  pystr_eqb (k_machine (fst a)) machine.

(** Line 111: the machines in the order the aggregated frame lists them. *)
Definition unique_machines (df : list FaultRecord) : list pystr :=
  unique pystr_compare (map (fun a : AggregateRow => k_machine (fst a))
                            (aggregated_df_total_duration df)).

(** Lines 108, 159: the list the loop appends to, one pair per pass. *)
Definition index_data (df : list FaultRecord) : list (pystr * pystr) :=
  fold_left (fun acc machine => acc ++ [(machine, sanitize_sheet_name machine)])
            (unique_machines df) [].

(** ** The workbook

    The book records what the program asks of the writer, sheet by sheet.
    The writer's own refusals (xlsxwriter raises on a sheet name it does not
    accept, for instance one that differs from an earlier name only in case)
    are exceptions of the library that end the run; they are not part of
    this model. *)

Inductive value : Type :=
| Str (s : pystr)
| Num (z : Z).

Record table : Type := mkTable {
  columns : list pystr;
  data : list (list value)
}.

(** What [create_bar_chart] is asked to draw; the drawing itself is the
    plotting library's. *)
Record bar_chart : Type := mkChart {
  chart_data : list (pystr * Z);
  title : pystr;
  x_label : pystr;
  y_label : pystr
}.

Definition create_bar_chart (data : list (pystr * Z)) (title x_label y_label : pystr)
  : bar_chart := mkChart data title x_label y_label.

(** The calls the program makes on a worksheet.  Column widths
    ([auto_adjust_column_widths]) are layout only and are left out. *)
Inductive cell_write : Type :=
| ToExcel (startrow : nat) (t : table)
| WriteText (row col : nat) (text : pystr)
| WriteUrl (row col : nat) (url text : pystr)
| InsertImage (row col : nat) (filename : pystr) (image : bar_chart)
| SetZoom (zoom : nat).

Record worksheet : Type := mkSheet {
  name : pystr;
  written : list cell_write
}.

(** The sheets in the order the book holds them, and the index of the active
    one. *)
Record Workbook : Type := mkBook {
  worksheets : list worksheet;
  active : nat
}.

Definition sheetnames (book : list worksheet) : list pystr := map name book.

(** A write on the sheet called [sheet_name].  [to_excel] adds the sheet at
    the end of the book when there is none of that name; the other calls go
    through [writer.sheets[sheet_name]], which exists by then. *)
Fixpoint write_on (sheet_name : pystr) (w : cell_write) (book : list worksheet)
  : list worksheet :=
  match book with
  | [] => [mkSheet sheet_name [w]]
  | s :: rest =>
      if pystr_eqb (name s) sheet_name
      then mkSheet (name s) (written s ++ [w]) :: rest
      else s :: write_on sheet_name w rest
  end.

Definition call : Type := (pystr * cell_write)%type.

Definition run_calls (calls : list call) (book : list worksheet) : list worksheet :=
  fold_left (fun b c => write_on (fst c) (snd c) b) calls book.

(** [list.index(x)]: the first position of [x]; [None] stands for the
    [ValueError] raised when [x] is absent. *)
Fixpoint index (x : pystr) (l : list pystr) : option nat :=
  match l with
  | [] => None
  | y :: l' => if pystr_eqb y x then Some 0 else option_map S (index x l')
  end.

Definition agg_table (metric : pystr) (rows : list AggregateRow) : table :=
  mkTable [py "D_MachineName"; py "D_StateDesc"; py "D_MsgCode"; py "D_MsgDesc";
           py "Fault_Description"; metric]
          (map (fun a : AggregateRow =>
                  [Str (k_machine (fst a)); Str (k_state (fst a)); Str (k_code (fst a));
                   Str (k_desc (fst a)); Str (k_fault (fst a)); Num (snd a)]) rows).

Definition station_table (metric : pystr) (rows : list (pystr * Z)) : table :=
  mkTable [py "D_MachineName"; metric] (map (fun s => [Str (fst s); Num (snd s)]) rows).

Definition index_df (index_data : list (pystr * pystr)) : table :=
  mkTable [py "Machine Name"; py "Sheet Name"]
          (map (fun e => [Str (fst e); Str (snd e)]) index_data).

(** [machine_df.set_index('Fault_Description')[metric]]. *)
Definition series (rows : list AggregateRow) : list (pystr * Z) :=
  map (fun a : AggregateRow => (k_fault (fst a), snd a)) rows.

Definition enumerate (A : Type) (l : list A) : list (nat * A) :=
  combine (seq 0 (List.length l)) l.

(** Lines 164-171: the index table, then a link and a name per entry. *)
Definition index_calls (index_data : list (pystr * pystr)) : list call :=
  (py "Index", ToExcel 0 (index_df index_data)) ::
  flat_map (fun ie : nat * (pystr * pystr) =>
              let i := fst ie in
              let machine := fst (snd ie) in
              let sheet := snd (snd ie) in
              [(py "Index", WriteUrl (i + 1) 1 (py "internal:'" ++ sheet ++ py "'!A1") sheet);
               (py "Index", WriteText (i + 1) 0 machine)])
           (enumerate index_data).

Section Report.
Variable sort_values : sorter.

Definition sorted_unique_faults_per_station (df : list FaultRecord) : list (pystr * Z) :=
  sort_values snd (unique_faults_per_station df).

Definition sorted_total_duration_per_station (df : list FaultRecord) : list (pystr * Z) :=
  sort_values snd (total_duration_per_station df).

(** Lines 115-117: the machine's rows, by duration descending, the first ten. *)
Definition machine_df_duration (df : list FaultRecord) (machine : pystr) : list AggregateRow :=
  firstn 10 (sort_values snd (filter (of_machine machine) (aggregated_df_total_duration df))).

(** Lines 118-120: the same on the occurrence sums. *)
Definition machine_df_occurrences (df : list FaultRecord) (machine : pystr) : list AggregateRow :=
  firstn 10 (sort_values snd (filter (of_machine machine) (aggregated_df_total_occur df))).

(** One pass of the loop (lines 114-156) as the calls it makes. *)
Definition machine_calls (df : list FaultRecord) (machine : pystr) : list call :=
  let duration := machine_df_duration df machine in
  let occurrences := machine_df_occurrences df machine in
  let sheet_name := sanitize_sheet_name machine in
  let startrow := (List.length duration + 4)%nat in
  let duration_image :=
    create_bar_chart (series duration) (py "Top 10 Durations for " ++ sheet_name)
                     (py "Fault Description") (py "Total Duration") in
  let occurrences_image :=
    create_bar_chart (series occurrences) (py "Top 10 Occurrences for " ++ sheet_name)
                     (py "Fault Description") (py "Total Occurrences") in
  [(sheet_name, ToExcel 1 (agg_table (py "T_TotalDuration") duration));
   (sheet_name, ToExcel startrow (agg_table (py "T_TotalOccur") occurrences));
   (sheet_name, WriteText 0 0 (py "Total Duration (Top 10)"));
   (sheet_name, WriteText (startrow - 1) 0 (py "Total Occurrences (Top 10)"));
   (sheet_name, InsertImage 20 0 (sheet_name ++ py "_duration.png") duration_image);
   (sheet_name, InsertImage 20 10 (sheet_name ++ py "_occurrences.png") occurrences_image);
   (sheet_name, SetZoom 50)].

(** Lines 176-192: the two summary sheets and the zoom of the three. *)
Definition summary_calls (df : list FaultRecord) : list call :=
  [(py "Unique Faults",
    ToExcel 0 (station_table (py "Unique Faults") (sorted_unique_faults_per_station df)));
   (py "Total Duration",
    ToExcel 0 (station_table (py "T_TotalDuration") (sorted_total_duration_per_station df)));
   (py "Index", SetZoom 50);
   (py "Unique Faults", SetZoom 50);
   (py "Total Duration", SetZoom 50)].

(** The book when the [with] block of lines 106-192 ends. *)
Definition written_book (df : list FaultRecord) : list worksheet :=
  run_calls (flat_map (machine_calls df) (unique_machines df)
             ++ index_calls (index_data df)
             ++ summary_calls df) [].

(** Lines 199-201: the saved book is opened again and
    [book.active = book.sheetnames.index('Index')] is assigned; the sheets
    stay where they are. *)
Definition set_active_index (book : list worksheet) : option Workbook :=
  match index (py "Index") (sheetnames book) with
  | Some i => Some (mkBook book i)
  | None => None
  end.

(** The whole run on the rows read from the file; [None] is an exception. *)
Definition process_faults_file (raw : list RawRecord) : option Workbook :=
  set_active_index (written_book (df raw)).

End Report.

(** The sheet names of a book after a write on [sheet_name]: a name the
    book does not have yet goes to the end. *)
Fixpoint add_name (sheet_name : pystr) (names : list pystr) : list pystr :=
  match names with
  | [] => [sheet_name]
  | n :: rest => if pystr_eqb n sheet_name then names else n :: add_name sheet_name rest
  end.

Definition add_names (l : list pystr) (names : list pystr) : list pystr :=
  fold_left (fun ns n => add_name n ns) l names.

Definition has_name (names : list pystr) (n : pystr) : bool :=
  existsb (fun m => pystr_eqb m n) names.

(** ** The orders the specification speaks of *)

(** The machines in the order they first appear in the cleaned records. *)
Definition machines_first_seen (df : list FaultRecord) : list pystr :=
  unique pystr_compare (map (@D_MachineName _ _) df).



(** The machine's rows of the aggregated duration frame (the frame the mask
    of line 115 selects), and their number: the machine's distinct keys. *)
Definition duration_rows (df : list FaultRecord) (machine : pystr) : list AggregateRow :=
  filter (of_machine machine) (aggregated_df_total_duration df).

Definition distinct_keys (df : list FaultRecord) (machine : pystr) : nat :=
  List.length (duration_rows df machine).

(** ** Sample inputs *)

Definition record (machine state code desc : string) (duration occur : num_cell)
  : RawRecord :=
  mkRow (Some (py machine)) (Some (py state)) (Some (py desc)) (Some (py code))
        duration occur.

(** The three rows of the specification's scenario: two of machine M1 with
    the same key, and one of machine M2 whose duration is the word bad. *)
Definition good_rows : list RawRecord :=
  [record "M1" "S" "c1" "desc1" (Numeric 10) (Numeric 2);
   record "M1" "S" "c1" "desc1" (Numeric 5) (Numeric 1)].

Definition bad_row : RawRecord :=
  record "M2" "S" "c2" "desc2" (NonNumeric (py "bad")) (Numeric 1).

Definition scenario : list RawRecord := good_rows ++ [bad_row].

(** Two faults of one machine with the same duration, the later key first. *)
Definition tied_rows : list RawRecord :=
  [record "M1" "S" "c2" "d" (Numeric 5) (Numeric 1);
   record "M1" "S" "c1" "d" (Numeric 5) (Numeric 1)].

(** Two machines, the one that sorts later first. *)
Definition two_machines : list RawRecord :=
  [record "B" "S" "c1" "d" (Numeric 1) (Numeric 1);
   record "A" "S" "c1" "d" (Numeric 1) (Numeric 1)].

(** Eleven faults of one machine, the last one of duration zero. *)
Definition eleven_faults : list RawRecord :=
  [record "M1" "S" "c01" "d" (Numeric 10) (Numeric 1);
   record "M1" "S" "c02" "d" (Numeric 9) (Numeric 1);
   record "M1" "S" "c03" "d" (Numeric 8) (Numeric 1);
   record "M1" "S" "c04" "d" (Numeric 7) (Numeric 1);
   record "M1" "S" "c05" "d" (Numeric 6) (Numeric 1);
   record "M1" "S" "c06" "d" (Numeric 5) (Numeric 1);
   record "M1" "S" "c07" "d" (Numeric 4) (Numeric 1);
   record "M1" "S" "c08" "d" (Numeric 3) (Numeric 1);
   record "M1" "S" "c09" "d" (Numeric 2) (Numeric 1);
   record "M1" "S" "c10" "d" (Numeric 1) (Numeric 1);
   record "M1" "S" "c11" "d" (Numeric 0) (Numeric 1)].



(** ** Further notions used to state properties of the run *)





(** ** [auto_adjust_column_widths] (lines 26-35)

    The frame is a [table]; its column labels are distinct in every table
    the program builds, so [df[col]] is the column at the label's position. *)

Section ColumnWidths.

(** The text [astype(str)] gives a number.  It depends on the dtype of the
    column (10 for an integer column, 10.0 for a float one) and is left
    open. *)
Variable str_of_number : Z -> pystr.

Definition value_str (v : value) : pystr :=
  match v with
  | Str s => s
  | Num z => str_of_number z
  end.

Definition column_cells (t : table) (idx : nat) : list value :=
  map (fun row => nth idx row (Str [])) (data t).

(** [Series.max()]: [None] is the [NaN] an empty series gives. *)
Definition series_max (l : list nat) : option nat :=
  match l with
  | [] => None
  | x :: l' => Some (fold_left Nat.max l' x)
  end.

(** [max(series.max(), len(col)) + 2]: Python's [max] keeps its first
    argument unless a later one compares greater, which nothing does with
    [NaN], and [NaN + 2] is [NaN]. *)
Definition max_length (t : table) (idx : nat) (col : pystr) : option nat :=
  match series_max (map (fun v => List.length (value_str v)) (column_cells t idx)) with
  | Some m => Some (Nat.max m (List.length col) + 2)%nat
  | None => None
  end.

(** The calls [worksheet.set_column(idx, idx, max_length)] the loop makes,
    as (first column, last column, width). *)
Definition auto_adjust_column_widths (t : table) : list (nat * nat * option nat) :=
  map (fun ic : nat * pystr => (fst ic, fst ic, max_length t (fst ic) (snd ic)))
      (enumerate (columns t)).

End ColumnWidths.

(** The rows of a sheet a write touches.  [to_excel] with a header puts the
    header on [startrow] and the rows of the frame on the rows after it; a
    text or a link goes to its row; an image is anchored at its row. *)
Definition rows_of (w : cell_write) : list nat :=
  match w with
  | ToExcel startrow t => seq startrow (S (List.length (data t)))
  | WriteText row _ _ => [row]
  | WriteUrl row _ _ _ => [row]
  | InsertImage row _ _ _ => [row]
  | SetZoom _ => []
  end.

(** A comparison that decides equality and is a strict total order. *)
Record order_laws (A : Type) (cmp : A -> A -> comparison) : Prop := {
  cmp_eq : forall a b, cmp a b = Eq <-> a = b;
  cmp_antisym : forall a b, cmp b a = CompOpp (cmp a b);
  cmp_trans : forall a b c, cmp a b = Lt -> cmp b c = Lt -> cmp a c = Lt
}.

(** * Properties *)

(** ** Comparisons *)

Lemma N_compare_laws : order_laws N.compare.
Proof.
  split.
  - intros a b. apply N.compare_eq_iff.
  - intros a b. apply N.compare_antisym.
  - intros a b c. rewrite !N.compare_lt_iff. lia.
Qed.

Section LexLaws.
Variable A : Type.
Variable cmp : A -> A -> comparison.
Hypothesis laws : order_laws cmp.

Lemma cmp_refl (a : A) : cmp a a = Eq.
Proof. apply (cmp_eq laws). reflexivity. Qed.

Lemma lex_compare_eq (a b : list A) : lex_compare cmp a b = Eq <-> a = b.
Proof.
  revert b. induction a as [|x a IH]; intros [|y b]; simpl; try (split; discriminate).
  - split; reflexivity.
  - destruct (cmp x y) eqn:E.
    + apply (cmp_eq laws) in E. subst y. rewrite IH. split; congruence.
    + split; [discriminate|]. intros H. injection H as -> _.
      rewrite cmp_refl in E. discriminate.
    + split; [discriminate|]. intros H. injection H as -> _.
      rewrite cmp_refl in E. discriminate.
Qed.

Lemma lex_compare_antisym (a b : list A) :
  lex_compare cmp b a = CompOpp (lex_compare cmp a b).
Proof.
  revert b. induction a as [|x a IH]; intros [|y b]; simpl; try reflexivity.
  rewrite (cmp_antisym laws x y).
  destruct (cmp x y); simpl; auto.
Qed.

Lemma lex_compare_trans (a b c : list A) :
  lex_compare cmp a b = Lt -> lex_compare cmp b c = Lt -> lex_compare cmp a c = Lt.
Proof.
  revert b c. induction a as [|x a IH]; intros [|y b] [|z c]; simpl;
    try discriminate; try reflexivity.
  destruct (cmp x y) eqn:Exy; try discriminate.
  - apply (cmp_eq laws) in Exy. subst y.
    destruct (cmp x z); try discriminate; eauto.
  - intros _. destruct (cmp y z) eqn:Eyz; try discriminate.
    + apply (cmp_eq laws) in Eyz. subst z. rewrite Exy. reflexivity.
    + intros _. rewrite (cmp_trans laws _ _ _ Exy Eyz). reflexivity.
Qed.

Lemma lex_compare_laws : order_laws (lex_compare cmp).
Proof.
  split.
  - apply lex_compare_eq.
  - apply lex_compare_antisym.
  - apply lex_compare_trans.
Qed.

End LexLaws.

Lemma pystr_compare_laws : order_laws pystr_compare.
Proof. apply lex_compare_laws, N_compare_laws. Qed.

Lemma pystr_eqb_eq (a b : pystr) : pystr_eqb a b = true <-> a = b.
Proof.
  unfold pystr_eqb. rewrite <- (cmp_eq pystr_compare_laws).
  destruct (pystr_compare a b); simpl; split; congruence.
Qed.

Lemma pystr_eqb_refl (a : pystr) : pystr_eqb a a = true.
Proof. apply pystr_eqb_eq. reflexivity. Qed.

Lemma key_columns_inj (a b : AggregateKey) : key_columns a = key_columns b -> a = b.
Proof.
  destruct a, b. unfold key_columns. simpl. intros H.
  injection H as -> -> -> -> ->. reflexivity.
Qed.

Lemma key_compare_laws : order_laws key_compare.
Proof.
  pose proof (lex_compare_laws pystr_compare_laws) as L.
  split; unfold key_compare.
  - intros a b. rewrite (cmp_eq L). split.
    + apply key_columns_inj.
    + congruence.
  - intros a b. apply (cmp_antisym L).
  - intros a b c. apply (cmp_trans L).
Qed.

(** ** Insertion sort *)

Section SortingFacts.
Variable A : Type.
Variable before : A -> A -> bool.

Lemma insert_sorted_perm (x : A) (l : list A) :
  Permutation (insert_sorted before x l) (x :: l).
Proof.
  induction l as [|y l IH]; simpl.
  - apply Permutation_refl.
  - destruct (before x y).
    + apply Permutation_refl.
    + apply Permutation_trans with (y :: x :: l).
      * apply perm_skip, IH.
      * apply perm_swap.
Qed.

Lemma insertion_sort_perm (l : list A) : Permutation (insertion_sort before l) l.
Proof.
  induction l as [|x l IH]; simpl.
  - apply perm_nil.
  - apply Permutation_trans with (x :: insertion_sort before l).
    + apply insert_sorted_perm.
    + apply perm_skip, IH.
Qed.

Hypothesis before_total : forall x y, before x y = false -> before y x = true.
Hypothesis before_trans :
  forall x y z, before x y = true -> before y z = true -> before x z = true.

Let ordered (x y : A) : Prop := before x y = true.

Lemma insert_sorted_strongly (x : A) (l : list A) :
  StronglySorted ordered l -> StronglySorted ordered (insert_sorted before x l).
Proof.
  induction 1 as [|y l Hs IH Hy]; simpl.
  - constructor; constructor.
  - destruct (before x y) eqn:E.
    + constructor.
      * constructor; assumption.
      * constructor; [exact E|].
        rewrite Forall_forall in *. intros z Hz.
        apply before_trans with y; [exact E | apply Hy, Hz].
    + constructor; [exact IH|].
      rewrite Forall_forall in *. intros z Hz.
      apply (Permutation_in _ (insert_sorted_perm x l)) in Hz.
      destruct Hz as [<- | Hz].
      * apply before_total, E.
      * apply Hy, Hz.
Qed.

Lemma insertion_sort_strongly (l : list A) :
  StronglySorted ordered (insertion_sort before l).
Proof.
  induction l as [|x l IH]; simpl.
  - constructor.
  - apply insert_sorted_strongly, IH.
Qed.

End SortingFacts.

(** The sample sorter keeps the promise of [sort_values]. *)
Lemma stable_sort_values_spec : sort_values_spec stable_sort_values.
Proof.
  intros A by_col frame. unfold stable_sort_values. split.
  - apply insertion_sort_perm.
  - eapply StronglySorted_ind with
      (P := StronglySorted (fun a b : A => (by_col b <= by_col a)%Z)).
    + constructor.
    + intros a l _ IH Ha. constructor; [exact IH|].
      eapply Forall_impl; [|exact Ha]. simpl. intros b Hb. apply Z.leb_le, Hb.
    + apply insertion_sort_strongly.
      * intros x y H. apply Z.leb_gt in H. apply Z.leb_le. lia.
      * intros x y z H1 H2. apply Z.leb_le in H1, H2. apply Z.leb_le. lia.
Qed.

(** ** [unique] and [groupby] *)


Section GroupByFacts.
Variables R K V : Type.
Variable key : R -> K.
Variable cmp : K -> K -> comparison.
Variable agg : list R -> V.
Hypothesis laws : order_laws cmp.

Let lt (a b : K) : Prop := cmp a b = Lt.

Lemma is_Eq_cmp (a b : K) : is_Eq (cmp a b) = true <-> a = b.
Proof.
  rewrite <- (cmp_eq laws). destruct (cmp a b); simpl; split; congruence.
Qed.

Lemma same_key_eq (k : K) (r : R) : same_key key cmp k r = true <-> key r = k.
Proof. apply is_Eq_cmp. Qed.

Lemma unique_In (k : K) (l : list K) : In k (unique cmp l) <-> In k l.
Proof.
  induction l as [|x l IH]; simpl; [tauto|].
  rewrite filter_In, IH. split.
  - tauto.
  - intros [H|H]; [tauto|].
    destruct (is_Eq (cmp k x)) eqn:E.
    + left. symmetry. apply is_Eq_cmp, E.
    + right. split; [exact H | reflexivity].
Qed.

Lemma unique_NoDup (l : list K) : NoDup (unique cmp l).
Proof.
  induction l as [|x l IH]; simpl; constructor.
  - rewrite filter_In. intros [_ H].
    rewrite (proj2 (is_Eq_cmp x x) eq_refl) in H. discriminate.
  - apply NoDup_filter, IH.
Qed.

Lemma not_after_total (x y : K) :
  not_after cmp x y = false -> not_after cmp y x = true.
Proof.
  unfold not_after. rewrite (cmp_antisym laws x y).
  destruct (cmp x y); simpl; congruence.
Qed.

Lemma not_after_trans (x y z : K) :
  not_after cmp x y = true -> not_after cmp y z = true -> not_after cmp x z = true.
Proof.
  unfold not_after.
  destruct (cmp x y) eqn:Exy; try discriminate; intros _.
  - apply (cmp_eq laws) in Exy. subst y. tauto.
  - destruct (cmp y z) eqn:Eyz; try discriminate; intros _.
    + apply (cmp_eq laws) in Eyz. subst z. rewrite Exy. reflexivity.
    + rewrite (cmp_trans laws _ _ _ Exy Eyz). reflexivity.
Qed.

Lemma lt_irrefl (a : K) : ~ lt a a.
Proof.
  unfold lt. rewrite (proj2 (cmp_eq laws a a) eq_refl). discriminate.
Qed.

Lemma strictly_sorted (l : list K) :
  NoDup l ->
  StronglySorted (fun a b => not_after cmp a b = true) l ->
  StronglySorted lt l.
Proof.
  intros Hnd Hs. induction Hs as [|x l Hs IH Hx].
  - constructor.
  - inversion Hnd as [|? ? Hnotin Hnd']; subst.
    constructor; [apply IH, Hnd'|].
    rewrite Forall_forall in *. intros z Hz. specialize (Hx z Hz).
    unfold lt, not_after in *.
    destruct (cmp x z) eqn:E; try reflexivity; try discriminate.
    apply (cmp_eq laws) in E. subst z. contradiction.
Qed.

(** Two strictly ascending lists with the same members are the same list. *)
Lemma strictly_sorted_unique (l l' : list K) :
  StronglySorted lt l -> StronglySorted lt l' ->
  (forall k, In k l <-> In k l') -> l = l'.
Proof.
  intros Hs. revert l'. induction Hs as [|x l Hs IH Hx]; intros l' Hs' Hin.
  - destruct l' as [|y l']; [reflexivity|].
    exfalso. apply (proj2 (Hin y)). left. reflexivity.
  - destruct Hs' as [|y l' Hs' Hy].
    + exfalso. apply (proj1 (Hin x)). left. reflexivity.
    + rewrite Forall_forall in Hx, Hy.
      assert (x = y) as <-.
      { destruct (proj1 (Hin x) (or_introl eq_refl)) as [E|Hx']; [congruence|].
        destruct (proj2 (Hin y) (or_introl eq_refl)) as [E|Hy']; [congruence|].
        exfalso. apply (@lt_irrefl x).
        apply (cmp_trans laws) with y; [apply Hx, Hy' | apply Hy, Hx']. }
      f_equal. apply IH; [exact Hs'|].
      intros k. split; intros Hk.
      * destruct (proj1 (Hin k) (or_intror Hk)) as [E|Hk']; [|exact Hk'].
        subst k. exfalso. apply (@lt_irrefl x), Hx, Hk.
      * destruct (proj2 (Hin k) (or_intror Hk)) as [E|Hk']; [|exact Hk'].
        subst k. exfalso. apply (@lt_irrefl x), Hy, Hk.
Qed.

Lemma group_keys_In (k : K) (frame : list R) :
  In k (group_keys key cmp frame) <-> In k (map key frame).
Proof.
  unfold group_keys. rewrite <- (unique_In k (map key frame)).
  split; apply Permutation_in.
  - apply insertion_sort_perm.
  - apply Permutation_sym, insertion_sort_perm.
Qed.

Lemma group_keys_sorted (frame : list R) :
  StronglySorted lt (group_keys key cmp frame).
Proof.
  unfold group_keys. apply strictly_sorted.
  - eapply Permutation_NoDup.
    + apply Permutation_sym, insertion_sort_perm.
    + apply unique_NoDup.
  - apply insertion_sort_strongly.
    + apply not_after_total.
    + apply not_after_trans.
Qed.

Lemma strictly_sorted_NoDup (l : list K) : StronglySorted lt l -> NoDup l.
Proof.
  induction 1 as [|x l Hs IH Hx]; constructor; [|exact IH].
  intros Hin. rewrite Forall_forall in Hx. apply (@lt_irrefl x), Hx, Hin.
Qed.

Lemma group_keys_NoDup (frame : list R) : NoDup (group_keys key cmp frame).
Proof. apply strictly_sorted_NoDup, group_keys_sorted. Qed.


Lemma groupby_keys (frame : list R) :
  map fst (groupby key cmp agg frame) = group_keys key cmp frame.
Proof.
  unfold groupby. rewrite map_map. simpl. apply map_id.
Qed.

Lemma groupby_In (k : K) (v : V) (frame : list R) :
  In (k, v) (groupby key cmp agg frame) <->
  In k (map key frame) /\ v = agg (filter (same_key key cmp k) frame).
Proof.
  unfold groupby. rewrite in_map_iff. split.
  - intros [k' [E Hk]]. injection E as -> <-.
    split; [apply group_keys_In, Hk | reflexivity].
  - intros [Hk ->]. exists k. split; [reflexivity | apply group_keys_In, Hk].
Qed.


End GroupByFacts.

(** ** Sums *)







(** ** A sorted list cut in two *)

Section Cut.
Variable A : Type.
Variable R : A -> A -> Prop.



End Cut.

(** ** Ranking with any sorter that keeps the promise of [sort_values] *)

Section RankingFacts.
Variable sort_values : sorter.
Hypothesis sorts : sort_values_spec sort_values.
Variable A : Type.
Variable by_col : A -> Z.
Variable frame : list A.








End RankingFacts.

(** ** [sanitize_sheet_name] *)

Section Kept.
Variable P : N -> Prop.




End Kept.




(** ** The writer *)

Lemma pystr_eqb_sym (a b : pystr) : pystr_eqb a b = pystr_eqb b a.
Proof.
  destruct (pystr_eqb a b) eqn:E1, (pystr_eqb b a) eqn:E2; try reflexivity.
  - apply pystr_eqb_eq in E1. subst b. rewrite pystr_eqb_refl in E2. discriminate.
  - apply pystr_eqb_eq in E2. subst b. rewrite pystr_eqb_refl in E1. discriminate.
Qed.

Lemma sheetnames_write_on (n : pystr) (w : cell_write) (book : list worksheet) :
  sheetnames (write_on n w book) = add_name n (sheetnames book).
Proof.
  induction book as [|s book IH]; simpl; [reflexivity|].
  destruct (pystr_eqb (name s) n); simpl; [reflexivity | rewrite IH; reflexivity].
Qed.

Lemma sheetnames_run_calls (calls : list call) (book : list worksheet) :
  sheetnames (run_calls calls book) = add_names (map fst calls) (sheetnames book).
Proof.
  revert book. induction calls as [|c calls IH]; intros book; simpl; [reflexivity|].
  unfold run_calls, add_names in *. simpl. rewrite IH, sheetnames_write_on. reflexivity.
Qed.

Lemma add_name_has (n : pystr) (names : list pystr) :
  add_name n names = if has_name names n then names else names ++ [n].
Proof.
  induction names as [|m names IH]; simpl; [reflexivity|].
  destruct (pystr_eqb m n); simpl; [reflexivity|].
  rewrite IH. destruct (has_name names n); reflexivity.
Qed.

Lemma has_name_In (names : list pystr) (n : pystr) :
  has_name names n = true <-> In n names.
Proof.
  unfold has_name. rewrite existsb_exists. split.
  - intros [m [Hm E]]. apply pystr_eqb_eq in E. subst m. exact Hm.
  - intros H. exists n. split; [exact H | apply pystr_eqb_refl].
Qed.

Lemma has_name_app (l l' : list pystr) (n : pystr) :
  has_name (l ++ l') n = has_name l n || has_name l' n.
Proof. unfold has_name. apply existsb_app. Qed.

Lemma filter_twice (A : Type) (p q : A -> bool) (l : list A) :
  filter p (filter q l) = filter (fun x => q x && p x) l.
Proof.
  induction l as [|x l IH]; simpl; [reflexivity|].
  destruct (q x); simpl; [destruct (p x)|]; rewrite IH; reflexivity.
Qed.

(** Adding the names of [l] one by one lists them in order of first
    appearance, after those the book had. *)
Lemma add_names_unique (l names : list pystr) :
  add_names l names
  = names ++ filter (fun n => negb (has_name names n)) (unique pystr_compare l).
Proof.
  revert names. induction l as [|k l IH]; intros names; simpl.
  - rewrite app_nil_r. reflexivity.
  - unfold add_names in *. simpl. rewrite IH, add_name_has, filter_twice.
    destruct (has_name names k) eqn:Hk; simpl.
    + f_equal. apply filter_ext. intros x.
      fold (pystr_eqb x k). destruct (pystr_eqb x k) eqn:E; simpl; [|reflexivity].
      apply pystr_eqb_eq in E. subst x. rewrite Hk. reflexivity.
    + rewrite <- app_assoc. simpl. do 2 f_equal. apply filter_ext. intros x.
      rewrite has_name_app. unfold has_name at 2. simpl.
      fold (pystr_eqb x k). rewrite (pystr_eqb_sym k x), orb_false_r.
      destruct (has_name names x), (pystr_eqb x k); reflexivity.
Qed.

Lemma add_names_nil (l : list pystr) : add_names l [] = unique pystr_compare l.
Proof.
  rewrite add_names_unique. simpl.
  induction (unique pystr_compare l) as [|x u IH]; simpl; [reflexivity | f_equal; exact IH].
Qed.

Lemma index_found (x : pystr) (l : list pystr) :
  In x l -> exists i, index x l = Some i.
Proof.
  induction l as [|y l IH]; simpl; [contradiction|].
  intros [->|H].
  - rewrite pystr_eqb_refl. eauto.
  - destruct (pystr_eqb y x); [eauto|].
    destruct (IH H) as [i ->]. simpl. eauto.
Qed.

Lemma add_name_In (m n : pystr) (names : list pystr) :
  In m (add_name n names) <-> m = n \/ In m names.
Proof.
  rewrite add_name_has. destruct (has_name names n) eqn:E.
  - apply has_name_In in E. split; [tauto|]. intros [->|H]; assumption.
  - rewrite in_app_iff. simpl. split; intros H; intuition congruence.
Qed.

Lemma add_name_present (n : pystr) (names : list pystr) :
  In n names -> add_name n names = names.
Proof.
  intros H. rewrite add_name_has. apply has_name_In in H. rewrite H. reflexivity.
Qed.

Lemma add_names_app (l l' names : list pystr) :
  add_names (l ++ l') names = add_names l' (add_names l names).
Proof. apply fold_left_app. Qed.

Lemma add_names_present (l names : list pystr) :
  (forall x, In x l -> In x names) -> add_names l names = names.
Proof.
  induction l as [|x l IH]; intros H; [reflexivity|].
  unfold add_names in *. simpl. rewrite add_name_present.
  - apply IH. intros y Hy. apply H. right. exact Hy.
  - apply H. left. reflexivity.
Qed.

Lemma add_names_same (n : pystr) (l names : list pystr) :
  (forall x, In x l -> x = n) -> add_names (n :: l) names = add_name n names.
Proof.
  intros H. change (add_names (n :: l) names) with (add_names l (add_name n names)).
  apply add_names_present. intros x Hx. apply add_name_In. left. apply H, Hx.
Qed.

Lemma index_calls_names (entries : list (pystr * pystr)) :
  exists l, map fst (index_calls entries) = py "Index" :: l
            /\ forall x, In x l -> x = py "Index".
Proof.
  unfold index_calls. simpl. eexists. split; [reflexivity|].
  intros x. rewrite in_map_iff. intros [c [<- Hc]].
  apply in_flat_map in Hc. destruct Hc as [ie [_ Hc]]. simpl in Hc.
  destruct Hc as [<-|[<-|[]]]; reflexivity.
Qed.

Section WriterFacts.
Variable sort_values : sorter.

Lemma machine_calls_names (df : list FaultRecord) (machine : pystr) (names : list pystr) :
  add_names (map fst (machine_calls sort_values df machine)) names
  = add_name (sanitize_sheet_name machine) names.
Proof.
  unfold machine_calls. simpl map. apply add_names_same.
  simpl. intros x H. repeat destruct H as [<-|H]; try reflexivity. contradiction.
Qed.

Lemma loop_names (df : list FaultRecord) (machines names : list pystr) :
  add_names (map fst (flat_map (machine_calls sort_values df) machines)) names
  = add_names (map sanitize_sheet_name machines) names.
Proof.
  revert names. induction machines as [|m machines IH]; intros names; [reflexivity|].
  cbn [flat_map]. rewrite map_app, add_names_app, machine_calls_names, IH. reflexivity.
Qed.

(** The sheets of the book in the order they were created: one per machine
    pass (a name met before adds none), then the index sheet and the two
    summaries. *)
Lemma written_book_names (df : list FaultRecord) :
  sheetnames (written_book sort_values df)
  = unique pystr_compare
      (map sanitize_sheet_name (unique_machines df)
       ++ [py "Index"; py "Unique Faults"; py "Total Duration"]).
Proof.
  unfold written_book. rewrite sheetnames_run_calls, <- add_names_nil.
  rewrite !map_app, !add_names_app, loop_names. simpl sheetnames.
  set (names := add_names (map sanitize_sheet_name (unique_machines df)) []).
  unfold call. destruct (index_calls_names (index_data df)) as [l [-> Hl]].
  rewrite add_names_same by exact Hl.
  unfold summary_calls. simpl map.
  change (add_names [py "Index"; py "Unique Faults"; py "Total Duration"] names)
    with (add_name (py "Total Duration") (add_name (py "Unique Faults")
            (add_name (py "Index") names))).
  set (n1 := add_name (py "Index") names).
  change (add_names [py "Unique Faults"; py "Total Duration"; py "Index";
                     py "Unique Faults"; py "Total Duration"] n1)
    with (add_names [py "Index"; py "Unique Faults"; py "Total Duration"]
            (add_name (py "Total Duration") (add_name (py "Unique Faults") n1))).
  apply add_names_present. intros x Hx. subst n1. rewrite !add_name_In.
  simpl in Hx. destruct Hx as [<-|[<-|[<-|[]]]]; tauto.
Qed.

Lemma written_book_has_index (df : list FaultRecord) :
  In (py "Index") (sheetnames (written_book sort_values df)).
Proof.
  rewrite written_book_names. apply (unique_In pystr_compare_laws).
  apply in_or_app. right. left. reflexivity.
Qed.

(** The run never stops on the [ValueError] of [index]. *)
Lemma process_faults_file_returns (raw : list RawRecord) :
  exists i, process_faults_file sort_values raw
            = Some (mkBook (written_book sort_values (df raw)) i).
Proof.
  unfold process_faults_file, set_active_index.
  destruct (index_found _ _ (written_book_has_index (df raw))) as [i ->].
  eauto.
Qed.

Lemma index_data_map (df : list FaultRecord) :
  index_data df = map (fun m => (m, sanitize_sheet_name m)) (unique_machines df).
Proof.
  unfold index_data.
  assert (forall l acc,
             fold_left (fun acc m => acc ++ [(m, sanitize_sheet_name m)]) l acc
             = acc ++ map (fun m => (m, sanitize_sheet_name m)) l) as H.
  { induction l as [|m l IH]; intros acc; simpl.
    - rewrite app_nil_r. reflexivity.
    - rewrite IH, <- app_assoc. reflexivity. }
  apply H.
Qed.

End WriterFacts.

(** ** The cleaning steps *)





(** ** The claims *)

(** C1 (the code departs from the claim).  The count written to the Unique
    Faults sheet for a machine is the number of cleaned rows of that machine,
    not the number of its distinct aggregate keys: on the scenario of the
    specification machine M1 has one key and is reported with 2. *)
Theorem unique_faults_counts_rows :
  (forall (d : list FaultRecord) (machine : pystr) (n : Z),
      In (machine, n) (unique_faults_per_station d) ->
      n = Z.of_nat (List.length
            (filter (fun r => pystr_eqb (D_MachineName r) machine) d))) /\
  sorted_unique_faults_per_station stable_sort_values (df scenario) = [(py "M1", 2%Z)] /\
  distinct_keys (df scenario) (py "M1") = 1%nat.
Proof.
  split; [|split].
  - intros d machine n H. unfold unique_faults_per_station in H.
    apply (groupby_In _ _ pystr_compare_laws) in H. apply H.
  - vm_compute. reflexivity.
  - vm_compute. reflexivity.
Qed.

(** C2 (the code departs from the claim).  The last step assigns the
    position of the Index sheet to the book's active sheet and moves nothing:
    the sheets stay in the order they were created, the machines' sheets
    first: whenever a record survives the cleaning, the first sheet is the
    one of the first machine.  With the single record of machine M1 the book
    is M1, Index, Unique Faults, Total Duration, and the active index is 1. *)
Theorem index_sheet_stays_behind :
  (forall (sort_values : sorter) (raw : list RawRecord),
      exists i,
        process_faults_file sort_values raw
        = Some (mkBook (written_book sort_values (df raw)) i) /\
        sheetnames (written_book sort_values (df raw))
        = unique pystr_compare
            (map sanitize_sheet_name (unique_machines (df raw))
             ++ [py "Index"; py "Unique Faults"; py "Total Duration"])) /\
  (forall (sort_values : sorter) (raw : list RawRecord) (m : pystr) (ms : list pystr),
      unique_machines (df raw) = m :: ms ->
      exists rest,
        sheetnames (written_book sort_values (df raw)) = sanitize_sheet_name m :: rest) /\
  option_map (fun book => (sheetnames (worksheets book), active book))
             (process_faults_file stable_sort_values (firstn 1 scenario))
  = Some ([py "M1"; py "Index"; py "Unique Faults"; py "Total Duration"], 1%nat).
Proof.
  split; [|split].
  - intros sort_values raw.
    destruct (process_faults_file_returns sort_values raw) as [i Hi].
    exists i. split; [exact Hi | apply written_book_names].
  - intros sort_values raw m ms E. rewrite written_book_names, E. simpl. eauto.
  - vm_compute. reflexivity.
Qed.




Section Ranked.
Variable sort_values : sorter.
Hypothesis sorts : sort_values_spec sort_values.



End Ranked.



(** ** The order of the machines *)

Lemma sorted_map (A B : Type) (R : A -> A -> Prop) (R' : B -> B -> Prop) (f : A -> B)
  (l : list A) :
  (forall a b, R a b -> R' (f a) (f b)) ->
  StronglySorted R l -> StronglySorted R' (map f l).
Proof.
  intros HR. induction 1 as [|x l Hs IH Hx]; simpl; constructor; [exact IH|].
  apply Forall_forall. intros y Hy. apply in_map_iff in Hy.
  destruct Hy as [z [<- Hz]]. rewrite Forall_forall in Hx. apply HR, Hx, Hz.
Qed.

Lemma sorted_filter (A : Type) (R : A -> A -> Prop) (p : A -> bool) (l : list A) :
  StronglySorted R l -> StronglySorted R (filter p l).
Proof.
  induction 1 as [|x l Hs IH Hx]; simpl; [constructor|].
  destruct (p x); [|exact IH]. constructor; [exact IH|].
  rewrite Forall_forall in *. intros y Hy. apply filter_In in Hy. apply Hx, Hy.
Qed.

(** [unique] of an ascending list is strictly ascending. *)
Lemma unique_sorted (K : Type) (cmp : K -> K -> comparison) (l : list K) :
  order_laws cmp ->
  StronglySorted (fun a b => not_after cmp a b = true) l ->
  StronglySorted (fun a b => cmp a b = Lt) (unique cmp l).
Proof.
  intros laws. induction 1 as [|x l Hs IH Hx]; simpl; constructor.
  - apply sorted_filter, IH.
  - rewrite Forall_forall in *. intros y Hy. apply filter_In in Hy.
    destruct Hy as [Hy Hne]. apply (proj1 (unique_In laws y l)) in Hy.
    specialize (Hx y Hy).
    unfold not_after in Hx. rewrite (cmp_antisym laws x y) in Hne.
    destruct (cmp x y); simpl in *; congruence.
Qed.

Lemma key_compare_machine (a b : AggregateKey) :
  key_compare a b = Lt -> not_after pystr_compare (k_machine a) (k_machine b) = true.
Proof.
  unfold key_compare, key_columns, not_after. simpl.
  destruct (pystr_compare (k_machine a) (k_machine b)); congruence.
Qed.

Lemma aggregated_machines (d : list FaultRecord) :
  map (fun a : AggregateRow => k_machine (fst a)) (aggregated_df_total_duration d)
  = map k_machine (group_keys key_of key_compare d).
Proof.
  unfold aggregated_df_total_duration.
  rewrite <- (groupby_keys key_of key_compare
                (fun g => nansum (map (@T_TotalDuration _ _) g)) d).
  rewrite map_map. reflexivity.
Qed.

Lemma unique_machines_sorted (d : list FaultRecord) :
  StronglySorted (fun a b => pystr_compare a b = Lt) (unique_machines d).
Proof.
  unfold unique_machines. rewrite aggregated_machines.
  apply unique_sorted; [exact pystr_compare_laws|].
  eapply sorted_map; [|apply (group_keys_sorted key_of key_compare_laws)].
  apply key_compare_machine.
Qed.

Lemma unique_machines_In (d : list FaultRecord) (m : pystr) :
  In m (unique_machines d) <-> exists r, In r d /\ D_MachineName r = m.
Proof.
  unfold unique_machines.
  rewrite (unique_In pystr_compare_laws), aggregated_machines, in_map_iff.
  split.
  - intros [k [<- Hk]]. apply (group_keys_In key_of key_compare_laws) in Hk.
    apply in_map_iff in Hk. destruct Hk as [r [<- Hr]]. exists r. split; [exact Hr | reflexivity].
  - intros [r [Hr <-]]. exists (key_of r). split; [reflexivity|].
    apply (group_keys_In key_of key_compare_laws), in_map, Hr.
Qed.


(** C4 (as amended).  There is one index entry per distinct machine of the
    cleaned records, each pairing the machine with its sanitized name, and
    the entries, like the passes of the loop that create the sheets, come in
    ascending order of the machine name: the order of the aggregated frame,
    whose keys [groupby] sorts. *)
Theorem index_entries_in_name_order (raw : list RawRecord) :
  index_data (df raw)
  = map (fun m => (m, sanitize_sheet_name m)) (unique_machines (df raw)) /\
  StronglySorted (fun a b => pystr_compare a b = Lt) (unique_machines (df raw)) /\
  NoDup (map fst (index_data (df raw))) /\
  (forall m, In m (map fst (index_data (df raw)))
             <-> exists r, In r (df raw) /\ D_MachineName r = m) /\
  (forall sort_values : sorter,
      sheetnames (written_book sort_values (df raw))
      = unique pystr_compare
          (map sanitize_sheet_name (unique_machines (df raw))
           ++ [py "Index"; py "Unique Faults"; py "Total Duration"])).
Proof.
  assert (map fst (index_data (df raw)) = unique_machines (df raw)) as E.
  { rewrite index_data_map, map_map. simpl. apply map_id. }
  split; [apply index_data_map|]. split; [apply unique_machines_sorted|].
  rewrite E. split; [|split].
  - apply (unique_NoDup pystr_compare_laws).
  - apply unique_machines_In.
  - intros sort_values. apply written_book_names.
Qed.

(** C4 as stated fails.  Machine B appears first in [two_machines], and the
    index lists A before B. *)
Lemma index_entries_not_first_seen :
  map fst (index_data (df two_machines)) = [py "A"; py "B"] /\
  machines_first_seen (df two_machines) = [py "B"; py "A"] /\
  map fst (index_data (df two_machines)) <> machines_first_seen (df two_machines).
Proof.
  split; [|split]; vm_compute; [reflexivity | reflexivity | discriminate].
Qed.




(** ** Sums over a machine's ranked durations *)


Section RankedSums.
Variable sort_values : sorter.
Hypothesis sorts : sort_values_spec sort_values.


End RankedSums.






(** * Further properties of the run *)

(** ** Totals survive grouping *)

Lemma filter_all (A : Type) (p : A -> bool) (l : list A) :
  (forall x, In x l -> p x = true) -> filter p l = l.
Proof.
  induction l as [|x l IH]; intros H; simpl; [reflexivity|].
  rewrite (H x (or_introl eq_refl)). f_equal. apply IH.
  intros y Hy. apply H. right. exact Hy.
Qed.

Lemma filter_map_comm (A B : Type) (f : A -> B) (p : B -> bool) (l : list A) :
  filter p (map f l) = map f (filter (fun x => p (f x)) l).
Proof.
  induction l as [|x l IH]; simpl; [reflexivity|].
  destruct (p (f x)); simpl; rewrite IH; reflexivity.
Qed.


Lemma length_sum_ones (A : Type) (l : list A) :
  Z.of_nat (List.length l) = sum_Z (map (fun _ => 1%Z) l).
Proof.
  induction l as [|x l IH]; [reflexivity|].
  cbn [List.length map sum_Z fold_right]. fold (sum_Z (map (fun _ : A => 1%Z) l)). lia.
Qed.

Section GroupTotals.
Variables R K : Type.
Variable key : R -> K.
Variable cmp : K -> K -> comparison.
Variable weight : R -> Z.
Hypothesis laws : order_laws cmp.

Let key_in (ks : list K) (r : R) : bool :=
  existsb (fun k => is_Eq (cmp (key r) k)) ks.

Lemma key_in_In (ks : list K) (r : R) : key_in ks r = true <-> In (key r) ks.
Proof.
  unfold key_in. rewrite existsb_exists. split.
  - intros [k [Hk E]]. apply (is_Eq_cmp laws) in E. rewrite E. exact Hk.
  - intros H. exists (key r). split; [exact H | apply (is_Eq_cmp laws); reflexivity].
Qed.

Lemma sum_filter_or (p q : R -> bool) (l : list R) :
  (forall r, p r = true -> q r = true -> False) ->
  sum_Z (map weight (filter (fun r => p r || q r) l))
  = (sum_Z (map weight (filter p l)) + sum_Z (map weight (filter q l)))%Z.
Proof.
  intros Hpq. induction l as [|r l IH]; simpl; [reflexivity|].
  destruct (p r) eqn:Ep, (q r) eqn:Eq; simpl; try lia.
  exfalso. apply (Hpq r); assumption.
Qed.

(** The groups of distinct keys add up to the rows that have one of them. *)
Lemma groups_total (frame : list R) (ks : list K) :
  NoDup ks ->
  sum_Z (map (fun k => sum_Z (map weight (filter (same_key key cmp k) frame))) ks)
  = sum_Z (map weight (filter (key_in ks) frame)).
Proof.
  induction 1 as [|k ks Hk Hnd IH]; simpl.
  - induction frame as [|r frame IHf]; simpl; [reflexivity | exact IHf].
  - rewrite IH. symmetry. apply sum_filter_or.
    intros r Hs Hin. apply key_in_In in Hin.
    apply (same_key_eq key laws) in Hs. congruence.
Qed.



End GroupTotals.




(** ** The summaries and the ranked lists *)

Lemma station_keys (d : list FaultRecord) :
  map fst (unique_faults_per_station d) = unique_machines d /\
  map fst (total_duration_per_station d) = unique_machines d.
Proof.
  unfold unique_faults_per_station, total_duration_per_station.
  rewrite !groupby_keys. split.
  - apply (strictly_sorted_unique pystr_compare_laws).
    + apply (group_keys_sorted _ pystr_compare_laws).
    + apply unique_machines_sorted.
    + intros m. rewrite (group_keys_In _ pystr_compare_laws), unique_machines_In.
      rewrite in_map_iff. split; intros [r [H1 H2]]; exists r; tauto.
  - apply (strictly_sorted_unique pystr_compare_laws).
    + apply (group_keys_sorted _ pystr_compare_laws).
    + apply unique_machines_sorted.
    + intros m. rewrite (group_keys_In _ pystr_compare_laws).
      unfold unique_machines. rewrite (unique_In pystr_compare_laws). reflexivity.
Qed.

Lemma NoDup_map_filter (A B : Type) (keep : A -> bool) (column : A -> B)
  (rows : list A) (distinct : NoDup (map column rows)) :
  NoDup (map column (filter keep rows)).
Proof.
  induction rows as [|x rows IH]; simpl in *; [constructor|].
  inversion distinct as [|? ? Hx Hl]; subst.
  destruct (keep x); simpl; [constructor|]; auto.
  intros Hin. apply Hx. apply in_map_iff in Hin. destruct Hin as [y [E Hy]].
  apply filter_In in Hy. rewrite <- E. apply in_map, Hy.
Qed.

Lemma firstn_In (A : Type) (n : nat) (l : list A) (x : A) :
  In x (firstn n l) -> In x l.
Proof.
  intros H. rewrite <- (firstn_skipn n l). apply in_or_app. left. exact H.
Qed.

Lemma firstn_NoDup (A : Type) (n : nat) (l : list A) : NoDup l -> NoDup (firstn n l).
Proof.
  intros H. rewrite <- (firstn_skipn n l) in H. apply NoDup_app_remove_r in H. exact H.
Qed.

Section Summaries.
Variable sort_values : sorter.
Hypothesis sorts : sort_values_spec sort_values.

(** X3.  Each of the two summary sheets has one row for every machine that
    has an index entry and for no other, with the rows in descending order of
    the sheet's metric. *)
Theorem summaries_cover_machines (d : list FaultRecord) :
  Permutation (map fst (sorted_unique_faults_per_station sort_values d))
              (map fst (index_data d)) /\
  Permutation (map fst (sorted_total_duration_per_station sort_values d))
              (map fst (index_data d)) /\
  StronglySorted (fun a b : pystr * Z => (snd b <= snd a)%Z)
                 (sorted_unique_faults_per_station sort_values d) /\
  StronglySorted (fun a b : pystr * Z => (snd b <= snd a)%Z)
                 (sorted_total_duration_per_station sort_values d).
Proof.
  assert (map fst (index_data d) = unique_machines d) as E.
  { rewrite index_data_map, map_map. simpl. apply map_id. }
  destruct (station_keys d) as [E1 E2].
  unfold sorted_unique_faults_per_station, sorted_total_duration_per_station.
  split; [|split; [|split]].
  - rewrite E, <- E1. apply Permutation_map, sorts.
  - rewrite E, <- E2. apply Permutation_map, sorts.
  - apply sorts.
  - apply sorts.
Qed.

(** X4.  A ranked list only holds rows of its machine, each the aggregated
    row of a key that some cleaned record has, with its fault description
    built from that record's description and code, and no key twice. *)
Theorem ranked_rows_belong (d : list FaultRecord) (machine : pystr) :
  (forall a, In a (machine_df_duration sort_values d machine) ->
             k_machine (fst a) = machine /\
             In a (aggregated_df_total_duration d) /\
             (exists r, In r d /\ key_of r = fst a) /\
             k_fault (fst a) = k_desc (fst a) ++ py " (" ++ k_code (fst a) ++ py ")") /\
  (forall a, In a (machine_df_occurrences sort_values d machine) ->
             k_machine (fst a) = machine /\
             In a (aggregated_df_total_occur d) /\
             (exists r, In r d /\ key_of r = fst a) /\
             k_fault (fst a) = k_desc (fst a) ++ py " (" ++ k_code (fst a) ++ py ")") /\
  NoDup (map fst (machine_df_duration sort_values d machine)) /\
  NoDup (map fst (machine_df_occurrences sort_values d machine)).
Proof.
  assert (forall (agg : list FaultRecord -> Z) a,
             In a (firstn 10 (sort_values snd
                    (filter (of_machine machine) (groupby key_of key_compare agg d)))) ->
             k_machine (fst a) = machine /\
             In a (groupby key_of key_compare agg d) /\
             (exists r, In r d /\ key_of r = fst a) /\
             k_fault (fst a) = k_desc (fst a) ++ py " (" ++ k_code (fst a) ++ py ")") as Hin.
  { intros agg a Ha. apply firstn_In in Ha.
    apply (Permutation_in _ (proj1 (sorts snd _))) in Ha.
    apply filter_In in Ha. destruct Ha as [Ha Hm].
    split; [apply pystr_eqb_eq, Hm|]. split; [exact Ha|].
    destruct a as [k v]. apply (groupby_In _ _ key_compare_laws) in Ha.
    destruct Ha as [Hk _]. apply in_map_iff in Hk. destruct Hk as [r [<- Hr]].
    split; [exists r; split; [exact Hr | reflexivity] | reflexivity]. }
  assert (forall (agg : list FaultRecord -> Z),
             NoDup (map fst (firstn 10 (sort_values snd
                    (filter (of_machine machine) (groupby key_of key_compare agg d)))))) as Hnd.
  { intros agg. rewrite <- firstn_map. apply firstn_NoDup.
    eapply Permutation_NoDup.
    - apply Permutation_map, Permutation_sym, sorts.
    - apply NoDup_map_filter.
      unfold AggregateRow. rewrite (groupby_keys key_of key_compare agg d).
      apply group_keys_NoDup, key_compare_laws. }
  split; [|split; [|split]].
  - apply Hin.
  - apply Hin.
  - apply Hnd.
  - apply Hnd.
Qed.

End Summaries.

Lemma summaries_cover_machines_witness :
  sort_values_spec stable_sort_values /\
  Permutation (map fst (sorted_unique_faults_per_station stable_sort_values (df two_machines)))
              (map fst (index_data (df two_machines))).
Proof.
  split; [exact stable_sort_values_spec|].
  apply (summaries_cover_machines stable_sort_values_spec (df two_machines)).
Defined.

Lemma ranked_rows_belong_witness :
  sort_values_spec stable_sort_values /\
  NoDup (map fst (machine_df_duration stable_sort_values (df eleven_faults) (py "M1"))).
Proof.
  split; [exact stable_sort_values_spec|].
  apply (ranked_rows_belong stable_sort_values_spec (df eleven_faults) (py "M1")).
Defined.

(** ** What ends up on which sheet *)












(** ** Input of which nothing survives *)


Section Nothing.
Variable sort_values : sorter.
Hypothesis sorts : sort_values_spec sort_values.


End Nothing.


(** ** The links of the Index sheet *)

Lemma enumerate_nth (A : Type) (l : list A) (i : nat) (x : A) :
  nth_error l i = Some x -> In (i, x) (enumerate l).
Proof.
  unfold enumerate.
  assert (forall s, nth_error l i = Some x ->
                    In ((s + i)%nat, x) (combine (seq s (List.length l)) l)) as H.
  { revert i. induction l as [|y l IH]; intros [|i] s; simpl; try discriminate.
    - intros E. injection E as ->. left. f_equal. lia.
    - intros E. right. replace (s + S i)%nat with (S s + i)%nat by lia.
      apply IH, E. }
  apply (H 0%nat).
Qed.



(** ** More on [sanitize_sheet_name] *)

Lemma lstrip_head (s : pystr) (c : N) (rest : pystr) :
  lstrip s = c :: rest -> isspace c = false.
Proof.
  induction s as [|x s IH]; simpl; [discriminate|].
  destruct (isspace x) eqn:E; [exact IH|].
  intros H. injection H as <- _. exact E.
Qed.

Lemma lstrip_nil (s : pystr) : lstrip s = [] <-> Forall (fun c => isspace c = true) s.
Proof.
  induction s as [|x s IH]; simpl.
  - split; [constructor | reflexivity].
  - destruct (isspace x) eqn:E.
    + rewrite IH. split; [constructor; assumption | intros H; inversion H; assumption].
    + split; [discriminate | intros H; inversion H; congruence].
Qed.

Lemma lstrip_app_nonspace (l r : pystr) (c : N) :
  isspace c = false -> lstrip (l ++ c :: r) = lstrip l ++ c :: r.
Proof.
  intros Hc. induction l as [|x l IH]; simpl.
  - rewrite Hc. reflexivity.
  - destruct (isspace x); [exact IH | reflexivity].
Qed.

Lemma strip_nil (s : pystr) : strip s = [] <-> Forall (fun c => isspace c = true) s.
Proof.
  unfold strip, rstrip. split.
  - intros H. apply (f_equal (@rev N)) in H. rewrite rev_involutive in H. simpl in H.
    apply lstrip_nil, Forall_rev in H. rewrite rev_involutive in H.
    destruct (lstrip s) as [|c rest] eqn:E; [apply lstrip_nil, E|].
    apply lstrip_head in E. inversion H; congruence.
  - intros H. apply lstrip_nil in H. rewrite H. reflexivity.
Qed.

Lemma strip_head (s : pystr) (c : N) (rest : pystr) :
  strip s = c :: rest -> isspace c = false.
Proof.
  unfold strip, rstrip. destruct (lstrip s) as [|x u] eqn:E; [discriminate|].
  apply lstrip_head in E. simpl rev.
  rewrite (lstrip_app_nonspace (rev u) [] x E), rev_app_distr. simpl.
  intros H. injection H as <- _. exact E.
Qed.

Lemma strip_last (s : pystr) (c : N) (front : pystr) :
  strip s = front ++ [c] -> isspace c = false.
Proof.
  unfold strip, rstrip. intros H.
  apply (f_equal (@rev N)) in H. rewrite rev_involutive, rev_app_distr in H. simpl in H.
  eapply lstrip_head, H.
Qed.

Lemma firstn_nil_inv (A : Type) (n : nat) (l : list A) :
  firstn (S n) l = [] -> l = [].
Proof. destruct l; [reflexivity | discriminate]. Qed.

(** X10.  A sanitized sheet name never begins with a whitespace character,
    and one shorter than 25 characters never ends with one (a name cut at 25
    may).  It is the empty string exactly when every character of the machine
    name is one of the seven removed characters or whitespace. *)
Theorem sanitized_name_edges (name : pystr) :
  (forall c rest, sanitize_sheet_name name = c :: rest -> isspace c = false) /\
  ((List.length (sanitize_sheet_name name) < 25)%nat ->
   forall c front, sanitize_sheet_name name = front ++ [c] -> isspace c = false) /\
  (sanitize_sheet_name name = [] <->
   forall c, In c name -> is_invalid_char c = true \/ isspace c = true).
Proof.
  unfold sanitize_sheet_name. set (s := strip (re_sub_invalid name)).
  split; [|split].
  - intros c rest H. destruct s as [|x u] eqn:E; [discriminate|].
    simpl in H. injection H as <- _. eapply strip_head, E.
  - intros Hlen c front H. rewrite firstn_all2 in H.
    + eapply strip_last, H.
    + rewrite length_firstn in Hlen. lia.
  - split.
    + intros H. apply firstn_nil_inv in H. apply strip_nil in H.
      rewrite Forall_forall in H. intros c Hc.
      destruct (is_invalid_char c) eqn:E; [left; reflexivity|].
      right. apply H. unfold re_sub_invalid. apply filter_In. rewrite E. tauto.
    + intros H. replace s with (@nil N); [reflexivity|].
      symmetry. apply strip_nil, Forall_forall. intros c Hc.
      unfold re_sub_invalid in Hc. apply filter_In in Hc. destruct Hc as [Hc Hv].
      destruct (H c Hc) as [E|E]; [rewrite E in Hv; discriminate | exact E].
Qed.

(** X11.  A machine name of at most 25 characters that has none of the seven
    removed characters and neither begins nor ends with whitespace is its own
    sheet name. *)
Theorem sanitize_keeps_clean_name (name : pystr) :
  (forall c, In c name -> is_invalid_char c = false) ->
  (forall c rest, name = c :: rest -> isspace c = false) ->
  (forall c front, name = front ++ [c] -> isspace c = false) ->
  (List.length name <= 25)%nat ->
  sanitize_sheet_name name = name.
Proof.
  intros Hvalid Hhead Hlast Hlen. unfold sanitize_sheet_name, re_sub_invalid.
  rewrite filter_all by (intros c Hc; rewrite (Hvalid c Hc); reflexivity).
  assert (lstrip name = name) as El.
  { destruct name as [|c rest]; [reflexivity|].
    simpl. rewrite (Hhead c rest eq_refl). reflexivity. }
  assert (strip name = name) as Es.
  { unfold strip, rstrip. rewrite El.
    destruct (rev name) as [|c u] eqn:Er.
    - apply (f_equal (@rev N)) in Er. rewrite rev_involutive in Er. rewrite Er. reflexivity.
    - assert (name = rev u ++ [c]) as En.
      { apply (f_equal (@rev N)) in Er. rewrite rev_involutive in Er. exact Er. }
      simpl. rewrite (Hlast c (rev u) En). simpl. symmetry. exact En. }
  rewrite Es. apply firstn_all2, Hlen.
Qed.

Lemma sanitize_keeps_clean_name_witness :
  (forall c, In c (py "M1") -> is_invalid_char c = false) /\
  (forall c rest, py "M1" = c :: rest -> isspace c = false) /\
  (forall c front, py "M1" = front ++ [c] -> isspace c = false) /\
  (List.length (py "M1") <= 25)%nat /\
  sanitize_sheet_name (py "M1") = py "M1".
Proof.
  assert (forall c, In c (py "M1") -> is_invalid_char c = false) as H1.
  { intros c [<-|[<-|[]]]; reflexivity. }
  assert (forall c rest, py "M1" = c :: rest -> isspace c = false) as H2.
  { intros c rest E. injection E as <- _. reflexivity. }
  assert (forall c front, py "M1" = front ++ [c] -> isspace c = false) as H3.
  { intros c front E. destruct front as [|a [|b [|x front]]]; simpl in E;
      try discriminate.
    injection E as _ <-. reflexivity. }
  assert (List.length (py "M1") <= 25)%nat as H4 by (simpl; lia).
  split; [exact H1|]. split; [exact H2|]. split; [exact H3|]. split; [exact H4|].
  exact (sanitize_keeps_clean_name H1 H2 H3 H4).
Defined.

(** ** What the cleaning keeps *)


(** ** Column widths *)

Lemma fold_max_ge (l : list nat) (x : nat) :
  (x <= fold_left Nat.max l x)%nat /\
  forall y, In y l -> (y <= fold_left Nat.max l x)%nat.
Proof.
  revert x. induction l as [|a l IH]; intros x; simpl.
  - split; [lia | contradiction].
  - destruct (IH (Nat.max x a)) as [H1 H2]. split; [lia|].
    intros y [<-|Hy]; [lia | apply H2, Hy].
Qed.

Lemma fold_max_In (l : list nat) (x : nat) :
  fold_left Nat.max l x = x \/ In (fold_left Nat.max l x) l.
Proof.
  revert x. induction l as [|a l IH]; intros x; simpl; [left; reflexivity|].
  destruct (IH (Nat.max x a)) as [H|H]; [|right; right; exact H].
  rewrite H. destruct (Nat.max_spec x a) as [[_ ->]|[_ ->]]; [right|]; left; reflexivity.
Qed.

Lemma series_max_spec (l : list nat) (m : nat) :
  series_max l = Some m -> In m l /\ forall y, In y l -> (y <= m)%nat.
Proof.
  destruct l as [|x l]; simpl; [discriminate|]. intros E. injection E as <-.
  destruct (fold_max_ge l x) as [H1 H2]. split.
  - destruct (fold_max_In l x) as [->|H]; [left; reflexivity | right; exact H].
  - intros y [<-|Hy]; [exact H1 | apply H2, Hy].
Qed.

Lemma enumerate_fst (A : Type) (l : list A) :
  map fst (enumerate l) = seq 0 (List.length l).
Proof.
  unfold enumerate. generalize 0%nat.
  induction l as [|x l IH]; intros s; simpl; [reflexivity | rewrite IH; reflexivity].
Qed.

(** X13.  [auto_adjust_column_widths] sets one width per column, column by
    column.  On a frame with at least one row the width of a column is two
    more than the longest of its header and its cells as text, so it covers
    all of them; on a frame without rows every width is NaN. *)
Theorem column_widths (str_of_number : Z -> pystr) (t : table) :
  map (fun c : nat * nat * option nat => (fst (fst c), snd (fst c)))
      (auto_adjust_column_widths str_of_number t)
  = map (fun i => (i, i)) (seq 0 (List.length (columns t))) /\
  (data t <> [] ->
   forall idx col, nth_error (columns t) idx = Some col ->
     exists w,
       In (idx, idx, Some w) (auto_adjust_column_widths str_of_number t) /\
       (List.length col + 2 <= w)%nat /\
       (forall row, In row (data t) ->
          (List.length (value_str str_of_number (nth idx row (Str []))) + 2 <= w)%nat) /\
       (w = (List.length col + 2)%nat \/
        exists row, In row (data t) /\
          w = (List.length (value_str str_of_number (nth idx row (Str []))) + 2)%nat)) /\
  (data t = [] ->
   forall c, In c (auto_adjust_column_widths str_of_number t) -> snd c = None).
Proof.
  unfold auto_adjust_column_widths. split; [|split].
  - rewrite map_map. simpl.
    rewrite <- (map_map fst (fun i => (i, i))), enumerate_fst. reflexivity.
  - intros Hdata idx col Hcol.
    destruct (series_max (map (fun v => List.length (value_str str_of_number v))
                              (column_cells t idx))) as [m|] eqn:Em.
    + destruct (series_max_spec _ Em) as [Hin Hmax].
      exists (Nat.max m (List.length col) + 2)%nat. split; [|split; [|split]].
      * apply in_map_iff. exists (idx, col). split.
        -- simpl. unfold max_length. rewrite Em. reflexivity.
        -- apply enumerate_nth, Hcol.
      * lia.
      * intros row Hrow.
        assert (List.length (value_str str_of_number (nth idx row (Str []))) <= m)%nat.
        { apply Hmax. unfold column_cells. rewrite map_map.
          apply in_map_iff. exists row. split; [reflexivity | exact Hrow]. }
        lia.
      * destruct (Nat.max_spec m (List.length col)) as [[_ ->]|[_ ->]]; [left; reflexivity|].
        right. unfold column_cells in Hin. rewrite map_map in Hin.
        apply in_map_iff in Hin. destruct Hin as [row [E Hrow]].
        exists row. split; [exact Hrow | rewrite E; reflexivity].
    + exfalso. unfold column_cells in Em. destruct (data t); [congruence | discriminate].
  - intros Hdata c Hc. apply in_map_iff in Hc. destruct Hc as [ic [<- _]].
    simpl. unfold max_length, column_cells. rewrite Hdata. reflexivity.
Qed.

(** ** The layout of a machine's sheet *)

(** X14.  On a machine's sheet the two tables and their two titles occupy
    rows of their own, none written twice, all within rows 0 to 24.  Both
    charts are anchored at row 20, which is a row of the occurrences table
    exactly when the two ranked lists have 16 rows or more between them. *)
Theorem machine_sheet_layout (sort_values : sorter) (d : list FaultRecord)
  (machine : pystr) :
  NoDup (flat_map (fun c : call => rows_of (snd c))
                  (firstn 4 (machine_calls sort_values d machine))) /\
  (forall r, In r (flat_map (fun c : call => rows_of (snd c))
                            (firstn 4 (machine_calls sort_values d machine))) ->
             (r <= 24)%nat) /\
  (forall c, In c (skipn 4 (machine_calls sort_values d machine)) ->
             rows_of (snd c) = [20%nat] \/ rows_of (snd c) = []) /\
  (In 20%nat (flat_map (fun c : call => rows_of (snd c))
                       (firstn 4 (machine_calls sort_values d machine)))
   <-> (16 <= List.length (machine_df_duration sort_values d machine)
             + List.length (machine_df_occurrences sort_values d machine))%nat).
Proof.
  assert (List.length (machine_df_duration sort_values d machine) <= 10)%nat as Hn
    by apply firstn_le_length.
  assert (List.length (machine_df_occurrences sort_values d machine) <= 10)%nat as Hm
    by apply firstn_le_length.
  unfold machine_calls.
  cbn [firstn skipn flat_map snd rows_of app agg_table data].
  rewrite !length_map.
  set (n := List.length (machine_df_duration sort_values d machine)) in *.
  set (m := List.length (machine_df_occurrences sort_values d machine)) in *.
  assert (forall r,
             In r (seq 1 (S n) ++ seq (n + 4) (S m) ++ [0%nat; (n + 4 - 1)%nat])
             <-> (1 <= r <= n + 1 \/ n + 4 <= r <= n + 4 + m \/ r = 0 \/ r = n + 3)%nat) as Hin.
  { intros r. rewrite !in_app_iff, !in_seq. simpl. lia. }
  split; [|split; [|split]].
  - apply NoDup_app; [apply seq_NoDup| |].
    + apply NoDup_app; [apply seq_NoDup| |].
      * constructor; [simpl; lia | constructor; [simpl; tauto | constructor]].
      * intros r Hr [E|[E|[]]]; apply in_seq in Hr; lia.
    + intros r Hr. rewrite in_app_iff, in_seq. apply in_seq in Hr. simpl. lia.
  - intros r Hr. apply Hin in Hr. lia.
  - intros c Hc. simpl in Hc.
    destruct Hc as [<-|[<-|[<-|[]]]]; simpl; auto.
  - rewrite Hin. lia.
Qed.

(** ** Reported counts against distinct keys *)

Lemma machine_groups_total (weight : FaultRecord -> Z) (d : list FaultRecord)
  (machine : pystr) :
  sum_Z (map (fun k => sum_Z (map weight (filter (same_key key_of key_compare k) d)))
             (filter (fun k => pystr_eqb (k_machine k) machine)
                     (group_keys key_of key_compare d)))
  = sum_Z (map weight (filter (fun r => pystr_eqb (D_MachineName r) machine) d)).
Proof.
  rewrite (groups_total key_of weight key_compare_laws d).
  - f_equal. f_equal. apply filter_ext_in. intros r Hr. apply eq_iff_eq_true.
    rewrite (key_in_In key_of key_compare_laws), filter_In. simpl. split.
    + intros [_ H]. exact H.
    + intros H. split; [|exact H].
      apply (group_keys_In key_of key_compare_laws), in_map, Hr.
  - apply NoDup_filter, group_keys_NoDup, key_compare_laws.
Qed.

Lemma distinct_keys_length (d : list FaultRecord) (machine : pystr) :
  distinct_keys d machine
  = List.length (filter (fun k => pystr_eqb (k_machine k) machine)
                        (group_keys key_of key_compare d)).
Proof.
  unfold distinct_keys, duration_rows, aggregated_df_total_duration, groupby.
  rewrite filter_map_comm, length_map. reflexivity.
Qed.

Lemma sum_Z_at_least (A : Type) (f : A -> Z) (l : list A) :
  (forall x, In x l -> (1 <= f x)%Z) -> (Z.of_nat (List.length l) <= sum_Z (map f l))%Z.
Proof.
  induction l as [|x l IH]; intros H; [simpl; lia|].
  cbn [List.length map sum_Z fold_right]. fold (sum_Z (map f l)).
  assert (1 <= f x)%Z by (apply H; left; reflexivity).
  assert (Z.of_nat (List.length l) <= sum_Z (map f l))%Z
    by (apply IH; intros y Hy; apply H; right; exact Hy).
  lia.
Qed.

(** X15.  The count the Unique Faults sheet shows for a machine is never
    below the number of the machine's distinct aggregate keys, which is at
    least one. *)
Theorem unique_faults_count_bounds (d : list FaultRecord) (machine : pystr) (n : Z) :
  In (machine, n) (unique_faults_per_station d) ->
  (1 <= distinct_keys d machine)%nat /\
  (Z.of_nat (distinct_keys d machine) <= n)%Z.
Proof.
  intros H. unfold unique_faults_per_station in H.
  apply (groupby_In _ _ pystr_compare_laws) in H. destruct H as [Hm ->].
  change (filter (same_key (@D_MachineName pystr (option Z)) pystr_compare machine) d)
    with (filter (fun r : FaultRecord => pystr_eqb (D_MachineName r) machine) d).
  rewrite distinct_keys_length. split.
  - apply in_map_iff in Hm. destruct Hm as [r [Er Hr]].
    assert (In (key_of r) (filter (fun k => pystr_eqb (k_machine k) machine)
                                  (group_keys key_of key_compare d))) as Hk.
    { apply filter_In. split.
      - apply (group_keys_In key_of key_compare_laws), in_map, Hr.
      - simpl. apply pystr_eqb_eq, Er. }
    destruct (filter _ (group_keys key_of key_compare d)); [contradiction | simpl; lia].
  - pose proof (machine_groups_total (fun _ => 1%Z) d machine) as Ht.
    pose proof (length_sum_ones
                  (filter (fun r : FaultRecord => pystr_eqb (D_MachineName r) machine) d))
      as Hl.
    assert (forall k,
               In k (filter (fun k => pystr_eqb (k_machine k) machine)
                            (group_keys key_of key_compare d)) ->
               (1 <= sum_Z (map (fun _ : FaultRecord => 1%Z)
                                (filter (same_key key_of key_compare k) d)))%Z) as Hge.
    { intros k Hk. apply filter_In in Hk. destruct Hk as [Hk _].
      apply (group_keys_In key_of key_compare_laws) in Hk.
      apply in_map_iff in Hk. destruct Hk as [r [Er Hr]].
      rewrite <- length_sum_ones.
      assert (In r (filter (same_key key_of key_compare k) d)) as Hin.
      { apply filter_In. split; [exact Hr|].
        apply (same_key_eq key_of key_compare_laws), Er. }
      destruct (filter (same_key key_of key_compare k) d); [contradiction | simpl; lia]. }
    pose proof (sum_Z_at_least _ _ Hge) as Hs.
    unfold FaultRecord in *. lia.
Qed.

Lemma unique_faults_count_bounds_witness :
  In (py "M1", 2%Z) (unique_faults_per_station (df scenario)) /\
  (Z.of_nat (distinct_keys (df scenario) (py "M1")) <= 2)%Z.
Proof.
  assert (In (py "M1", 2%Z) (unique_faults_per_station (df scenario))) as H
    by (vm_compute; left; reflexivity).
  split; [exact H|].
  exact (proj2 (@unique_faults_count_bounds (df scenario) (py "M1") 2%Z H)).
Defined.

(** ** The order of the input rows *)




(** ** The two ranked lists of a machine with few keys *)

Lemma machine_rows_keys (agg : list FaultRecord -> Z) (d : list FaultRecord)
  (machine : pystr) :
  map fst (filter (of_machine machine) (groupby key_of key_compare agg d))
  = filter (fun k => pystr_eqb (k_machine k) machine) (group_keys key_of key_compare d).
Proof.
  unfold groupby. rewrite filter_map_comm, map_map. simpl. apply map_id.
Qed.

Section FewKeys.
Variable sort_values : sorter.
Hypothesis sorts : sort_values_spec sort_values.

(** X17.  For a machine with at most ten distinct keys both ranked lists
    hold all of its keys: the duration table and the occurrences table show
    the same faults, each once. *)
Theorem few_keys_same_faults (d : list FaultRecord) (machine : pystr) :
  (distinct_keys d machine <= 10)%nat ->
  Permutation (map fst (machine_df_duration sort_values d machine))
              (map fst (machine_df_occurrences sort_values d machine)) /\
  List.length (machine_df_duration sort_values d machine) = distinct_keys d machine /\
  List.length (machine_df_occurrences sort_values d machine) = distinct_keys d machine.
Proof.
  intros Hk.
  assert (forall agg : list FaultRecord -> Z,
             Permutation
               (map fst (firstn 10 (sort_values snd
                  (filter (of_machine machine) (groupby key_of key_compare agg d)))))
               (filter (fun k => pystr_eqb (k_machine k) machine)
                       (group_keys key_of key_compare d))) as H.
  { intros agg. rewrite <- (machine_rows_keys agg d machine).
    apply Permutation_map. rewrite firstn_all2.
    - apply sorts.
    - rewrite (Permutation_length (proj1 (sorts snd _))).
      rewrite <- (length_map fst), machine_rows_keys, <- distinct_keys_length. exact Hk. }
  unfold machine_df_duration, machine_df_occurrences,
    aggregated_df_total_duration, aggregated_df_total_occur.
  split; [|split].
  - eapply Permutation_trans; [apply H | apply Permutation_sym, H].
  - rewrite distinct_keys_length.
    rewrite <- (Permutation_length
                  (H (fun g => nansum (map (@T_TotalDuration _ _) g)))).
    symmetry. apply length_map.
  - rewrite distinct_keys_length.
    rewrite <- (Permutation_length
                  (H (fun g => nansum (map (@T_TotalOccur _ _) g)))).
    symmetry. apply length_map.
Qed.

End FewKeys.

Lemma few_keys_same_faults_witness :
  sort_values_spec stable_sort_values /\
  (distinct_keys (df tied_rows) (py "M1") <= 10)%nat /\
  Permutation (map fst (machine_df_duration stable_sort_values (df tied_rows) (py "M1")))
              (map fst (machine_df_occurrences stable_sort_values (df tied_rows) (py "M1"))).
Proof.
  assert (distinct_keys (df tied_rows) (py "M1") <= 10)%nat as H
    by (vm_compute; repeat constructor).
  split; [exact stable_sort_values_spec|]. split; [exact H|].
  exact (proj1 (few_keys_same_faults stable_sort_values_spec (df tied_rows) (py "M1") H)).
Defined.
